(** * Incident analysis dashboard (app.py): filter and aggregate pipeline

    A shallow embedding of the data flow of [app.py]: the loaded table,
    the four sidebar selections, the filtered view, the three headline
    metrics and the group-by projections that feed the charts.

    Conventions of the embedding.
    - A pandas cell is [option A]; [None] is a missing entry (NaN).
    - A DataFrame is the list of its rows, in index order.
    - A Python value that ends up in a dropdown ([pyvalue]) is a string, an
      integer, a float or NaN; the sentinel is the string "All".
    - "Year" and "Number of deaths" hold integers and "Duration_days"
      exact rationals: sums and means are computed without rounding or
      overflow.
    - pandas keeps an integer column that has an empty cell as float64.
      The values, their order and their sums are the same as long as they
      are exactly representable, but they print as floats: the year
      entries of the dropdown ([int_column_value]) and the Total Deaths
      box ([format_comma_float]) follow the column's dtype. *)

From Stdlib Require Import QArith Qabs Ascii.
From stdpp Require Import base decidable option list strings pretty sorting.

(** ** Data model *)

Record Row := mkRow {
  States : option string;
  Year : option Z;
  Month_Name : option string;
  Incident_Type : option string;
  Identifier : option string;
  Number_of_deaths : option Z;
  Duration_days : option Q
}.

Abbreviation DataFrame := (list Row).

Inductive pyvalue :=
| PStr (s : string)
| PInt (z : Z)
| PFloat (q : Q)
| PNaN.

(** The four selectbox results. *)
Record Selection := mkSelection {
  state_filter : pyvalue;
  year_filter : pyvalue;
  month_filter : pyvalue;
  incident_filter : pyvalue
}.

(** ** Series primitives *)

(** [Series.dropna()]. *)
Definition dropna {A} (col : list (option A)) : list A := omap id col.

(** [Series.hasnans]: the column has an empty cell.  [read_csv] then holds
    a column of integers as float64. *)
Definition hasnans {A} (col : list (option A)) : bool :=
  existsb (λ c, match c with None => true | Some _ => false end) col.

(** A value of an integer column as [tolist()] hands it out: a Python int,
    or a float when the column is float64. *)
Definition int_column_value (col : list (option Z)) (z : Z) : pyvalue :=
  if hasnans col then PFloat (inject_Z z) else PInt z.

(** [Series.unique()]: the values in order of first appearance.  pandas
    walks the column with a hash table of the values already emitted;
    [table] plays that role.  Missing entries are kept, as one value. *)
Fixpoint unique_from {A} `{EqDecision A} (table values : list A) : list A :=
  match values with
  | [] => []
  | v :: values =>
      if decide (v ∈ table) then unique_from table values
      else v :: unique_from (v :: table) values
  end.

Definition unique {A} `{EqDecision A} (values : list A) : list A :=
  unique_from [] values.

(** Python's [sorted]: ascending by the elements' own [<=], stable.  It is
    only applied to lists without repetition, on which every sorting
    algorithm returns the same list; insertion sort is written here. *)
Fixpoint insert_sorted {A} (leb : A → A → bool) (x : A) (l : list A) : list A :=
  match l with
  | [] => [x]
  | y :: l' => if leb x y then x :: l else y :: insert_sorted leb x l'
  end.

Fixpoint sorted {A} (leb : A → A → bool) (l : list A) : list A :=
  match l with
  | [] => []
  | x :: l' => insert_sorted leb x (sorted leb l')
  end.

(** ** Elementwise comparison [column == value] *)

(** [value != "All"]. *)
Definition ne_All (v : pyvalue) : bool :=
  match v with
  | PStr s => negb (String.eqb s "All")
  | _ => true
  end.

(** A text cell against the selected value; a missing cell equals nothing,
    and nothing equals NaN. *)
Definition str_cell_eq (c : option string) (v : pyvalue) : bool :=
  match c, v with
  | Some s, PStr t => String.eqb s t
  | _, _ => false
  end.

(** A numeric cell against the selected value: numbers compare by value,
    a number equals no string, a missing cell equals nothing. *)
Definition int_cell_eq (c : option Z) (v : pyvalue) : bool :=
  match c, v with
  | Some a, PInt b => Z.eqb a b
  | Some a, PFloat q => Qeq_bool (inject_Z a) q
  | _, _ => false
  end.

(** ** APPLY FILTERS (lines 45-57) *)

Definition filter_state (v : pyvalue) (filtered_df : DataFrame) : DataFrame :=
  if ne_All v then filter (λ r, str_cell_eq (States r) v) filtered_df
  else filtered_df.

Definition filter_year (v : pyvalue) (filtered_df : DataFrame) : DataFrame :=
  if ne_All v then filter (λ r, int_cell_eq (Year r) v) filtered_df
  else filtered_df.

Definition filter_month (v : pyvalue) (filtered_df : DataFrame) : DataFrame :=
  if ne_All v then filter (λ r, str_cell_eq (Month_Name r) v) filtered_df
  else filtered_df.

Definition filter_incident (v : pyvalue) (filtered_df : DataFrame) : DataFrame :=
  if ne_All v then filter (λ r, str_cell_eq (Incident_Type r) v) filtered_df
  else filtered_df.

Definition apply_filters (df : DataFrame) (sel : Selection) : DataFrame :=
  let filtered_df := df in
  let filtered_df := filter_state (state_filter sel) filtered_df in
  let filtered_df := filter_year (year_filter sel) filtered_df in
  let filtered_df := filter_month (month_filter sel) filtered_df in
  let filtered_df := filter_incident (incident_filter sel) filtered_df in
  filtered_df.

(** The four dimensions, to speak about the [if] blocks one at a time. *)
Inductive dimension := DimState | DimYear | DimMonth | DimIncident.

Definition filter_dim (d : dimension) (sel : Selection) : DataFrame → DataFrame :=
  match d with
  | DimState => filter_state (state_filter sel)
  | DimYear => filter_year (year_filter sel)
  | DimMonth => filter_month (month_filter sel)
  | DimIncident => filter_incident (incident_filter sel)
  end.

(** The predicate one dimension imposes on a row: none under "All". *)
Definition dim_ok (d : dimension) (sel : Selection) (r : Row) : bool :=
  match d with
  | DimState =>
      negb (ne_All (state_filter sel)) || str_cell_eq (States r) (state_filter sel)
  | DimYear =>
      negb (ne_All (year_filter sel)) || int_cell_eq (Year r) (year_filter sel)
  | DimMonth =>
      negb (ne_All (month_filter sel)) || str_cell_eq (Month_Name r) (month_filter sel)
  | DimIncident =>
      negb (ne_All (incident_filter sel))
      || str_cell_eq (Incident_Type r) (incident_filter sel)
  end.

Definition row_selected (sel : Selection) (r : Row) : bool :=
  dim_ok DimState sel r && dim_ok DimYear sel r
  && dim_ok DimMonth sel r && dim_ok DimIncident sel r.

Definition All : pyvalue := PStr "All".

Definition no_filter : Selection := mkSelection All All All All.

(** ** METRICS (lines 62-69) *)

(** [Series.sum()]: missing entries are skipped; the empty sum is 0.  The
    sum is the mathematical one: it is the code's as long as the total
    stays within the column's dtype (below 2^63 for int64, exactly
    representable for float64). *)
Definition series_sum (col : list (option Z)) : Z :=
  foldr Z.add 0%Z (dropna col).

(** [Series.count()]: the number of entries that are not missing. *)
Definition series_count {A} (col : list (option A)) : nat :=
  length (dropna col).

(** [Series.mean()]: the sum of the entries that are present over their
    number, NaN when there is none.  The quotient is the exact one: the
    code's float64 mean is this value up to rounding, and equal to it
    when sum and quotient are representable (as 3/2 in the scenario). *)
Definition series_mean (col : list (option Q)) : pyvalue :=
  match dropna col with
  | [] => PNaN
  | values =>
      PFloat (Qred (foldr Qplus 0%Q values / inject_Z (Z.of_nat (length values))))
  end.

Definition total_incidents (filtered_df : DataFrame) : nat :=
  length filtered_df.

Definition total_deaths (filtered_df : DataFrame) : Z :=
  series_sum (Number_of_deaths <$> filtered_df).

Definition avg_duration (filtered_df : DataFrame) : pyvalue :=
  series_mean (Duration_days <$> filtered_df).

(** Digits, least significant first, with a comma after every third one
    that has a successor. *)
Fixpoint group3 (digits : list ascii) : list ascii :=
  match digits with
  | a :: b :: c :: rest =>
      match rest with
      | [] => [a; b; c]
      | _ => a :: b :: c :: ","%char :: group3 rest
      end
  | _ => digits
  end.

(** The format spec [","] on an integer. *)
Definition format_comma (z : Z) : string :=
  (if (z <? 0)%Z then "-" else "") +:+
  String.string_of_list_ascii
    (reverse (group3 (reverse (String.list_ascii_of_string (pretty (Z.abs_N z)))))).

(** The number of tenths nearest to [q >= 0], ties to the even one. *)
Definition round_tenths (q : Q) : Z :=
  let n := (10 * Qnum q)%Z in
  let d := Zpos (Qden q) in
  let lo := (n / d)%Z in
  let twice_rest := (2 * (n mod d))%Z in
  if (twice_rest <? d)%Z then lo
  else if (d <? twice_rest)%Z then (lo + 1)%Z
  else if Z.even lo then lo else (lo + 1)%Z.

(** The format spec [".1f"].  Python raises ValueError for a string
    operand ([None] here); NaN is printed as "nan"; a number is rounded to
    the nearest tenth of its exact value, ties to even. *)
Definition format_1f (v : pyvalue) : option string :=
  match v with
  | PStr _ => None
  | PInt z => Some (pretty z +:+ ".0")
  | PFloat q =>
      let t := round_tenths (Qabs q) in
      Some ((if Qle_bool 0 q then "" else "-") +:+
            pretty (t / 10)%Z +:+ "." +:+ pretty (t mod 10)%Z)
  | PNaN => Some "nan"
  end.

(** The format spec [","] on a float that holds an integer: the grouped
    digits and ".0" (for totals below 10^16, which Python prints in
    positional notation). *)
Definition format_comma_float (z : Z) : string :=
  format_comma z +:+ ".0".

(** The three strings handed to [col1.metric], [col2.metric] and
    [col3.metric]; [None] if a format call raises.  The view keeps the
    dtypes of the dataset it was filtered from: the sum of
    "Number of deaths" is a float when that column of [df] has an empty
    cell, an int otherwise. *)
Definition metrics_display (df filtered_df : DataFrame)
  : option (string * string * string) :=
  let incidents := format_comma (Z.of_nat (total_incidents filtered_df)) in
  let deaths :=
    if hasnans (Number_of_deaths <$> df)
    then format_comma_float (total_deaths filtered_df)
    else format_comma (total_deaths filtered_df) in
  duration ← format_1f (avg_duration filtered_df);
  Some (incidents, deaths, duration).

(** ** Group-by *)

(** [DataFrame.groupby(key)] with its defaults: rows whose key is missing
    belong to no group, and the groups come out in ascending key order
    ([sort=True]), each keeping its rows in table order. *)
Definition group_keys {K} `{EqDecision K} (leb : K → K → bool)
    (key : Row → option K) (filtered_df : DataFrame) : list K :=
  sorted leb (unique (dropna (key <$> filtered_df))).

Definition groupby {K} `{EqDecision K} (leb : K → K → bool)
    (key : Row → option K) (filtered_df : DataFrame) : list (K * DataFrame) :=
  (λ k, (k, filter (λ r, key r = Some k) filtered_df)) <$>
  group_keys leb key filtered_df.

(** [groupby("States")["Number of deaths"].sum().reset_index()]. *)
Definition deaths_by_state (filtered_df : DataFrame) : list (string * Z) :=
  (λ g, (g.1, series_sum (Number_of_deaths <$> g.2))) <$>
  groupby String.leb States filtered_df.

(** CHART 2 (lines 99-102). *)
Definition incidents_by_type (filtered_df : DataFrame) : list (string * nat) :=
  (λ g, (g.1, series_count (Identifier <$> g.2))) <$>
  groupby String.leb Incident_Type filtered_df.

(** ** Sorting a frame by a column, descending *)

(** [DataFrame.take]: the rows at the given positions. *)
Definition take_rows {A} (rows : list A) (indexer : list nat) : list A :=
  omap (λ i, rows !! i) indexer.

(** numpy's [argsort] orders the positions of an array by the values they
    hold.  Every [kind] returns a permutation of the positions along which
    the values ascend; what happens among equal values depends on the
    kind, and pandas asks for "quicksort". *)
Definition argsort_correct (argsort : list Z → list nat) : Prop :=
  ∀ v : list Z,
    argsort v ≡ₚ seq 0 (length v) ∧
    Sorted Z.le (omap (λ i, v !! i) (argsort v)).

(** The value at a position that is in range. *)
Definition key_at (v : list Z) (i : nat) : Z := default 0%Z (v !! i).

(** One argsort within the contract: the insertion sort that numpy's
    scalar "quicksort" runs on an array of at most 17 values.  Each
    position in turn moves left past the positions holding strictly
    greater values.  (Longer arrays are partitioned first, and vectorised
    builds sort differently: the claims below rely on the contract only.) *)
Fixpoint ainsert (v : list Z) (vi : nat) (tosort : list nat) : list nat :=
  match tosort with
  | [] => [vi]
  | pk :: rest =>
      if bool_decide (key_at v vi < key_at v pk)%Z
      then vi :: tosort
      else pk :: ainsert v vi rest
  end.

Definition insertion_argsort (v : list Z) : list nat :=
  foldl (λ tosort vi, ainsert v vi tosort) [] (seq 0 (length v)).

(** Another argsort within the contract: it sorts the negated values and
    reads the result backwards, which leaves equal values in the opposite
    order. *)
Definition mirrored_argsort (v : list Z) : list nat :=
  reverse (insertion_argsort (Z.opp <$> v)).

Section sort_values.
Variable argsort : list Z → list nat.

(** pandas' [nargsort] with [ascending=False] and no missing key: the
    keys and their positions are reversed, sorted ascending, and the
    resulting indexer is reversed. *)
Definition nargsort_desc (items : list Z) : list nat :=
  let idx := seq 0 (length items) in
  let non_nans := reverse items in
  let non_nan_idx := reverse idx in
  let indexer := omap (λ j, non_nan_idx !! j) (argsort non_nans) in
  reverse indexer.

(** [sort_values(by=..., ascending=False)]. *)
Definition sort_values_desc {A} (by_ : A → Z) (rows : list A) : list A :=
  take_rows rows (nargsort_desc (by_ <$> rows)).

(** CHART 1 (lines 77-80). *)
Definition fatalities_by_state (filtered_df : DataFrame) : list (string * Z) :=
  sort_values_desc snd (deaths_by_state filtered_df).
End sort_values.

(** ** SIDEBAR FILTERS (lines 26-40) and CHART 3 (lines 117-120) *)

(** [list(df["Month_Name"].unique())]: no [dropna] here. *)
Definition month_order (df : DataFrame) : list (option string) :=
  unique (Month_Name <$> df).

(** A cell as the Python object [tolist()] or [list()] hands out. *)
Definition str_cell_value (c : option string) : pyvalue :=
  match c with Some s => PStr s | None => PNaN end.

Definition state_options (df : DataFrame) : list pyvalue :=
  [All] ++ (PStr <$> sorted String.leb (unique (dropna (States <$> df)))).

Definition year_options (df : DataFrame) : list pyvalue :=
  [All] ++ (int_column_value (Year <$> df) <$>
            sorted Z.leb (unique (dropna (Year <$> df)))).

Definition month_options (df : DataFrame) : list pyvalue :=
  [All] ++ (str_cell_value <$> month_order df).

Definition incident_options (df : DataFrame) : list pyvalue :=
  [All] ++ (PStr <$> sorted String.leb (unique (dropna (Incident_Type <$> df)))).

(** [groupby("Month_Name")["Identifier"].count()]. *)
Definition count_by_month (filtered_df : DataFrame) : list (string * nat) :=
  (λ g, (g.1, series_count (Identifier <$> g.2))) <$>
  groupby String.leb Month_Name filtered_df.

(** The value [Series.reindex] gives a label: the one the series has for
    it, missing when the series has no such label.  A group-by index never
    holds a missing label, so a missing target label finds nothing. *)
Definition reindex_value (series : list (string * nat)) (label : option string)
  : option nat :=
  match label with
  | Some s => (λ found, found.2.2) <$> list_find (λ kv, kv.1 = s) series
  | None => None
  end.

Definition monthly_trend (df filtered_df : DataFrame)
  : list (option string * option nat) :=
  (λ label, (label, reindex_value (count_by_month filtered_df) label)) <$>
  month_order df.

(** ** The scenario of the specification *)

Definition scenario (i1 i2 i3 : option string) : DataFrame :=
  [ mkRow (Some "StateA") (Some 2022%Z) (Some "January") (Some "Flood") i1
      (Some 5%Z) (Some 2%Q);
    mkRow (Some "StateA") (Some 2023%Z) (Some "February") (Some "Fire") i2
      (Some 0%Z) (Some 1%Q);
    mkRow (Some "StateB") (Some 2022%Z) (Some "January") (Some "Flood") i3
      (Some 10%Z) (Some 3%Q) ].

(** ** Orders and totals used in the statements *)

(** Strictly before, in lexicographic order. *)
Definition string_lt (s1 s2 : string) : Prop := String.ltb s1 s2 = true.

(** [Series.sum()] of a column of integers without missing entries. *)
Definition column_sum (col : list Z) : Z := foldr Z.add 0%Z col.

(** ** Worked inputs *)

Definition sample : DataFrame :=
  scenario (Some "INC-1") (Some "INC-2") (Some "INC-3").

Definition only_StateA : Selection := mkSelection (PStr "StateA") All All All.
Definition only_StateB : Selection := mkSelection (PStr "StateB") All All All.
Definition only_StateC : Selection := mkSelection (PStr "StateC") All All All.

(** One record whose state cell is empty. *)
Definition stateless : DataFrame :=
  [ mkRow None (Some 2022%Z) (Some "January") (Some "Flood") (Some "INC-1")
      (Some 3%Z) (Some 1%Q) ].

(** One record whose incident-type cell is empty. *)
Definition typeless : DataFrame :=
  [ mkRow (Some "StateA") (Some 2022%Z) (Some "January") None (Some "INC-1")
      (Some 3%Z) (Some 1%Q) ].

(** Two states with the same number of deaths, StateB met first. *)
Definition tied : DataFrame :=
  [ mkRow (Some "StateB") (Some 2022%Z) (Some "January") (Some "Flood")
      (Some "INC-1") (Some 5%Z) (Some 1%Q);
    mkRow (Some "StateA") (Some 2022%Z) (Some "January") (Some "Flood")
      (Some "INC-2") (Some 5%Z) (Some 1%Q) ].

(** The death count of the only record is empty. *)
Definition uncounted : DataFrame :=
  [ mkRow (Some "StateA") (Some 2022%Z) (Some "January") (Some "Flood")
      (Some "INC-1") None (Some 1%Q) ].

(** Every categorical cell of the second record is empty. *)
Definition gappy : DataFrame :=
  [ mkRow (Some "StateA") (Some 2022%Z) (Some "January") (Some "Flood")
      (Some "INC-1") (Some 1%Z) (Some 1%Q);
    mkRow None None None None (Some "INC-2") (Some 2%Z) None ].

(** The states of a view in the order the rows bring them up. *)
Definition encounter_order (view : DataFrame) : list string :=
  unique (dropna (States <$> view)).

(** Rows with equal sums stand in the chart as their states stand in the
    encounter order. *)
Definition ties_in_encounter_order
    (view : DataFrame) (chart : list (string * Z)) : Prop :=
  ∀ i j s1 s2 d,
    i < j → chart !! i = Some (s1, d) → chart !! j = Some (s2, d) →
    ∃ i' j', i' < j' ∧
      encounter_order view !! i' = Some s1 ∧ encounter_order view !! j' = Some s2.

(** ** Helpers for the further properties *)


(** The counts of a trend that are present, added up. *)
Definition trend_total (trend : list (option string * option nat)) : nat :=
  sum_list (default 0 <$> (snd <$> trend)).

(** * Facts *)

(** ** Filter engine: basic facts *)

Lemma filter_all {A} (P : A → Prop) `{∀ x, Decision (P x)} (l : list A) :
  (∀ x, P x) → filter P l = l.
Proof.
  intros HP. induction l as [|x l IH]; [done|].
  rewrite filter_cons_True by done. by f_equal.
Qed.

Lemma filter_dim_spec d sel df :
  filter_dim d sel df = filter (λ r, dim_ok d sel r) df.
Proof.
  destruct d; simpl;
    unfold filter_state, filter_year, filter_month, filter_incident;
    match goal with |- context [ne_All ?v] => destruct (ne_All v) end;
    simpl; try reflexivity; symmetry; by apply filter_all.
Qed.

Lemma filter_dim_sublist d sel df : filter_dim d sel df `sublist_of` df.
Proof. rewrite filter_dim_spec. apply sublist_filter. Qed.

Lemma apply_filters_dims df sel :
  apply_filters df sel =
  filter_dim DimIncident sel
    (filter_dim DimMonth sel (filter_dim DimYear sel (filter_dim DimState sel df))).
Proof. reflexivity. Qed.

Lemma apply_filters_spec df sel :
  apply_filters df sel = filter (λ r, row_selected sel r) df.
Proof.
  rewrite apply_filters_dims, !filter_dim_spec, !list_filter_filter.
  apply list_filter_iff. intros r. unfold row_selected.
  rewrite !andb_True. tauto.
Qed.

Lemma foldl_filter_dim sel ds df :
  foldl (λ acc d, filter_dim d sel acc) df ds =
  filter (λ r, forallb (λ d, dim_ok d sel r) ds) df.
Proof.
  revert df. induction ds as [|d ds IH]; intros df; simpl.
  - symmetry. by apply filter_all.
  - rewrite IH, filter_dim_spec, list_filter_filter.
    apply list_filter_iff. intros r. rewrite andb_True. tauto.
Qed.

(** ** Facts about the series primitives *)

Section unique.
Context {A : Type} `{EqDecision A}.
Implicit Types (x : A) (table values : list A).

Lemma elem_of_unique_from table values x :
  x ∈ unique_from table values ↔ x ∈ values ∧ x ∉ table.
Proof.
  revert table. induction values as [|v values IH]; intros table; simpl.
  - rewrite !elem_of_nil. tauto.
  - destruct (decide (v ∈ table)) as [Hin|Hout].
    + rewrite IH, elem_of_cons. split; [tauto|].
      intros [[->|?] ?]; tauto.
    + rewrite !elem_of_cons, IH, elem_of_cons.
      destruct (decide (x = v)) as [->|Hne]; tauto.
Qed.

Lemma NoDup_unique_from table values : NoDup (unique_from table values).
Proof.
  revert table. induction values as [|v values IH]; intros table; simpl.
  - constructor.
  - destruct (decide (v ∈ table)); [apply IH|].
    constructor; [|apply IH].
    rewrite elem_of_unique_from, elem_of_cons. tauto.
Qed.


Lemma elem_of_unique values x : x ∈ unique values ↔ x ∈ values.
Proof. unfold unique. rewrite elem_of_unique_from, elem_of_nil. tauto. Qed.

Lemma NoDup_unique values : NoDup (unique values).
Proof. apply NoDup_unique_from. Qed.

End unique.

Lemma elem_of_dropna {A} (col : list (option A)) (x : A) :
  x ∈ dropna col ↔ Some x ∈ col.
Proof.
  unfold dropna. rewrite list_elem_of_omap. split.
  - intros (c & Hc & Heq). simpl in Heq. by subst.
  - intros Hc. by exists (Some x).
Qed.

Section sorted.
Context {A : Type} (leb : A → A → bool).
Hypothesis leb_total : ∀ x y, leb x y = true ∨ leb y x = true.
Hypothesis leb_trans :
  ∀ x y z, leb x y = true → leb y z = true → leb x z = true.

Lemma insert_sorted_Permutation x l : insert_sorted leb x l ≡ₚ x :: l.
Proof.
  induction l as [|y l IH]; simpl; [reflexivity|].
  destruct (leb x y); [reflexivity|].
  rewrite IH. apply Permutation_swap.
Qed.

Lemma sorted_Permutation l : sorted leb l ≡ₚ l.
Proof.
  induction l as [|x l IH]; simpl; [reflexivity|].
  rewrite insert_sorted_Permutation. by f_equiv.
Qed.

Lemma insert_sorted_StronglySorted x l :
  StronglySorted (λ a b, leb a b = true) l →
  StronglySorted (λ a b, leb a b = true) (insert_sorted leb x l).
Proof.
  induction 1 as [|y l Hl IH Hy]; simpl.
  - repeat constructor.
  - destruct (leb x y) eqn:Hxy.
    + constructor; [by constructor|].
      constructor; [done|].
      eapply Forall_impl; [exact Hy|]. intros z Hz. by eapply leb_trans.
    + constructor; [done|].
      rewrite (insert_sorted_Permutation x l). constructor; [|done].
      destruct (leb_total x y); congruence.
Qed.

Lemma sorted_StronglySorted l :
  StronglySorted (λ a b, leb a b = true) (sorted leb l).
Proof.
  induction l as [|x l IH]; simpl; [constructor|].
  by apply insert_sorted_StronglySorted.
Qed.

Lemma elem_of_sorted l x : x ∈ sorted leb l ↔ x ∈ l.
Proof. by rewrite sorted_Permutation. Qed.

Lemma NoDup_sorted l : NoDup l → NoDup (sorted leb l).
Proof. by rewrite sorted_Permutation. Qed.

(** On values without repetition the order is strict. *)
Lemma sorted_strict l :
  (∀ x y, leb x y = true → leb y x = true → x = y) →
  NoDup l →
  StronglySorted (λ a b, leb a b = true ∧ a ≠ b) (sorted leb l).
Proof.
  intros Hanti Hnd. apply NoDup_sorted in Hnd.
  pose proof (sorted_StronglySorted l) as Hs.
  induction Hs as [|x k Hk IH Hx]; [constructor|].
  apply NoDup_cons in Hnd as [Hx' Hnd].
  constructor; [by apply IH|].
  apply Forall_forall. intros y Hy. split.
  - by eapply Forall_forall in Hx.
  - intros ->. done.
Qed.
End sorted.

(** ** The orders [sorted] uses *)

(** Python compares strings lexicographically, character code by character
    code; [String.compare] does the same on byte strings. *)
Lemma ascii_compare_refl (a : ascii) : Ascii.compare a a = Eq.
Proof. unfold Ascii.compare. apply N.compare_refl. Qed.

Lemma ascii_compare_lt_trans (a b c : ascii) :
  Ascii.compare a b = Lt → Ascii.compare b c = Lt → Ascii.compare a c = Lt.
Proof.
  unfold Ascii.compare. rewrite !N.compare_lt_iff. apply N.lt_trans.
Qed.

Lemma string_compare_lt_trans (s1 s2 s3 : string) :
  String.compare s1 s2 = Lt → String.compare s2 s3 = Lt →
  String.compare s1 s3 = Lt.
Proof.
  revert s2 s3. induction s1 as [|a s1 IH]; intros [|b s2] [|c s3]; simpl;
    try done.
  destruct (Ascii.compare a b) eqn:Hab; try done;
    destruct (Ascii.compare b c) eqn:Hbc; try done; intros H12 H23.
  - apply Ascii.compare_eq_iff in Hab, Hbc. subst.
    rewrite ascii_compare_refl. by eapply IH.
  - apply Ascii.compare_eq_iff in Hab. subst. by rewrite Hbc.
  - apply Ascii.compare_eq_iff in Hbc. subst. by rewrite Hab.
  - by rewrite (ascii_compare_lt_trans a b c).
Qed.

Lemma string_leb_trans (s1 s2 s3 : string) :
  String.leb s1 s2 = true → String.leb s2 s3 = true → String.leb s1 s3 = true.
Proof.
  unfold String.leb.
  destruct (String.compare s1 s2) eqn:H12; try done;
    destruct (String.compare s2 s3) eqn:H23; try done; intros _ _.
  - apply String.compare_eq_iff in H12. subst. by rewrite H23.
  - apply String.compare_eq_iff in H12. subst. by rewrite H23.
  - apply String.compare_eq_iff in H23. subst. by rewrite H12.
  - by rewrite (string_compare_lt_trans s1 s2 s3).
Qed.

Lemma string_leb_ne_lt (s1 s2 : string) :
  String.leb s1 s2 = true ∧ s1 ≠ s2 → string_lt s1 s2.
Proof.
  unfold string_lt, String.leb, String.ltb. intros [Hle Hne].
  destruct (String.compare s1 s2) eqn:Hc; try done.
  apply String.compare_eq_iff in Hc. done.
Qed.




Lemma StronglySorted_weaken {A} (R1 R2 : A → A → Prop) (l : list A) :
  (∀ x y, R1 x y → R2 x y) → StronglySorted R1 l → StronglySorted R2 l.
Proof.
  intros HR. induction 1 as [|x l Hl IH Hx]; constructor; [done|].
  eapply Forall_impl; [exact Hx|]. intros y. apply HR.
Qed.

Lemma sorted_strings_strict (l : list string) :
  NoDup l → StronglySorted string_lt (sorted String.leb l).
Proof.
  intros Hnd.
  eapply StronglySorted_weaken; [|apply sorted_strict];
    eauto using String.leb_total, string_leb_trans, String.leb_antisym.
  intros ???. by apply string_leb_ne_lt.
Qed.


(** ** Sorting by a column *)

Lemma take_rows_all {A} (rows : list A) :
  take_rows rows (seq 0 (length rows)) = rows.
Proof.
  unfold take_rows.
  induction rows as [|x rows IH] using rev_ind; [done|].
  rewrite length_app, Nat.add_1_r, seq_S, omap_app. simpl.
  rewrite lookup_app_r, Nat.sub_diag by lia. simpl. f_equal.
  rewrite <- IH at 2. apply list_omap_ext, Forall_Forall2_diag, Forall_forall.
  intros i Hi%elem_of_seq. apply lookup_app_l. lia.
Qed.

Lemma take_rows_Permutation {A} (rows : list A) (indexer : list nat) :
  indexer ≡ₚ seq 0 (length rows) → take_rows rows indexer ≡ₚ rows.
Proof.
  intros Hperm. rewrite <- (take_rows_all rows) at 2.
  unfold take_rows. by rewrite Hperm.
Qed.

Lemma omap_omap {A B C} (f : A → option B) (g : B → option C) (l : list A) :
  omap g (omap f l) = omap (λ x, f x ≫= g) l.
Proof.
  induction l as [|x l IH]; [done|]. csimpl.
  destruct (f x) as [y|]; csimpl; [|done].
  destruct (g y); by rewrite IH.
Qed.

Lemma reverse_omap {A B} (f : A → option B) (l : list A) :
  reverse (omap f l) = omap f (reverse l).
Proof.
  induction l as [|x l IH]; [done|].
  rewrite reverse_cons, omap_app, <- IH. csimpl.
  destruct (f x); csimpl; by rewrite ?reverse_cons, ?app_nil_r.
Qed.

Lemma Sorted_fmap_inv {A B} (f : A → B) (R : relation B) (l : list A) :
  Sorted R (f <$> l) → Sorted (λ x y, R (f x) (f y)) l.
Proof.
  induction l as [|x l IH]; [constructor|].
  rewrite fmap_cons. intros [Hl Hx]%Sorted_inv.
  constructor; [by apply IH|].
  destruct l; simpl in *; constructor. by inversion Hx.
Qed.

(** The reversed position list sends [j] to the position the [j]-th
    reversed key came from. *)
Lemma reversed_position (items : list Z) (j : nat) :
  reverse (seq 0 (length items)) !! j ≫= (λ i, items !! i) = reverse items !! j.
Proof.
  destruct (decide (j < length items)) as [Hlt|Hge].
  - rewrite !reverse_lookup by (rewrite ?length_seq; done).
    rewrite length_seq, lookup_seq_lt by lia. done.
  - rewrite (lookup_ge_None_2 (reverse items)) by (rewrite length_reverse; lia).
    rewrite lookup_ge_None_2; [done|]. rewrite length_reverse, length_seq. lia.
Qed.

Section sort_values_facts.
Variable argsort : list Z → list nat.
Hypothesis argsort_ok : argsort_correct argsort.

Lemma nargsort_desc_Permutation (items : list Z) :
  nargsort_desc argsort items ≡ₚ seq 0 (length items).
Proof.
  unfold nargsort_desc.
  destruct (argsort_ok (reverse items)) as [Hperm _].
  rewrite length_reverse in Hperm.
  rewrite reverse_Permutation, Hperm.
  pose proof (take_rows_all (reverse (seq 0 (length items)))) as Hall.
  unfold take_rows in Hall.
  rewrite length_reverse, length_seq in Hall. rewrite Hall.
  apply reverse_Permutation.
Qed.

Lemma nargsort_desc_keys (items : list Z) :
  Sorted (flip Z.le) (omap (λ i, items !! i) (nargsort_desc argsort items)).
Proof.
  unfold nargsort_desc.
  rewrite <- reverse_omap, omap_omap.
  apply Sorted_reverse.
  destruct (argsort_ok (reverse items)) as [_ Hsorted].
  erewrite list_omap_ext; [exact Hsorted|].
  apply Forall_Forall2_diag, Forall_forall. intros j _.
  apply reversed_position.
Qed.

Lemma sort_values_desc_Permutation {A} (by_ : A → Z) (rows : list A) :
  sort_values_desc argsort by_ rows ≡ₚ rows.
Proof.
  apply take_rows_Permutation.
  rewrite nargsort_desc_Permutation. by rewrite length_fmap.
Qed.

Lemma sort_values_desc_Sorted {A} (by_ : A → Z) (rows : list A) :
  StronglySorted (λ a b, (by_ b ≤ by_ a)%Z) (sort_values_desc argsort by_ rows).
Proof.
  apply Sorted_StronglySorted.
  { intros a b c ??. lia. }
  apply (Sorted_fmap_inv by_ (flip Z.le)).
  unfold sort_values_desc, take_rows. rewrite list_fmap_omap.
  erewrite list_omap_ext; [apply nargsort_desc_keys|].
  apply Forall_Forall2_diag, Forall_forall. intros i _.
  by rewrite list_lookup_fmap.
Qed.
End sort_values_facts.

(** ** The insertion argsort is an argsort *)

Section insertion_argsort.
Variable v : list Z.

Lemma ainsert_Permutation vi tosort : ainsert v vi tosort ≡ₚ vi :: tosort.
Proof.
  induction tosort as [|pk rest IH]; simpl; [done|].
  case_bool_decide; [done|]. rewrite IH. apply Permutation_swap.
Qed.

Lemma ainsert_StronglySorted vi tosort :
  StronglySorted (λ i j, (key_at v i ≤ key_at v j)%Z) tosort →
  StronglySorted (λ i j, (key_at v i ≤ key_at v j)%Z) (ainsert v vi tosort).
Proof.
  induction 1 as [|pk rest Hrest IH Hpk]; simpl.
  - repeat constructor.
  - case_bool_decide as Hlt.
    + constructor; [by constructor|].
      constructor; [lia|].
      eapply Forall_impl; [exact Hpk|]. simpl. intros j Hj. lia.
    + constructor; [done|].
      rewrite ainsert_Permutation. constructor; [lia|done].
Qed.

Lemma insertion_loop_Permutation positions tosort :
  foldl (λ tosort vi, ainsert v vi tosort) tosort positions
  ≡ₚ tosort ++ positions.
Proof.
  revert tosort. induction positions as [|vi positions IH]; intros tosort; simpl.
  - by rewrite app_nil_r.
  - rewrite IH, ainsert_Permutation. simpl. apply Permutation_middle.
Qed.

Lemma insertion_loop_StronglySorted positions tosort :
  StronglySorted (λ i j, (key_at v i ≤ key_at v j)%Z) tosort →
  StronglySorted (λ i j, (key_at v i ≤ key_at v j)%Z)
    (foldl (λ tosort vi, ainsert v vi tosort) tosort positions).
Proof.
  revert tosort. induction positions as [|vi positions IH]; intros tosort Hs;
    simpl; [done|].
  by apply IH, ainsert_StronglySorted.
Qed.

Lemma omap_lookup_in_range (positions : list nat) :
  Forall (λ i, i < length v) positions →
  omap (λ i, v !! i) positions = key_at v <$> positions.
Proof.
  induction 1 as [|i positions Hi _ IH]; [done|]. csimpl.
  apply lookup_lt_is_Some in Hi as [x Hx].
  unfold key_at at 1. rewrite Hx. simpl. by rewrite IH.
Qed.
End insertion_argsort.

Lemma insertion_argsort_correct : argsort_correct insertion_argsort.
Proof.
  intros v. unfold insertion_argsort.
  pose proof (insertion_loop_Permutation v (seq 0 (length v)) []) as Hperm.
  simpl in Hperm. split; [exact Hperm|].
  rewrite omap_lookup_in_range.
  - apply StronglySorted_Sorted.
    apply (StronglySorted_fmap _ (λ i j, (key_at v i ≤ key_at v j)%Z)).
    + done.
    + apply insertion_loop_StronglySorted. constructor.
  - rewrite Hperm. apply Forall_forall. intros i Hi%elem_of_seq. lia.
Qed.

Lemma Sorted_weaken {A} (R1 R2 : A → A → Prop) (l : list A) :
  (∀ x y, R1 x y → R2 x y) → Sorted R1 l → Sorted R2 l.
Proof.
  intros HR. induction 1 as [|x l Hl IH Hx]; constructor; [done|].
  destruct Hx; constructor. by apply HR.
Qed.

Lemma mirrored_argsort_correct : argsort_correct mirrored_argsort.
Proof.
  intros v. unfold mirrored_argsort.
  destruct (insertion_argsort_correct (Z.opp <$> v)) as [Hperm Hsorted].
  rewrite length_fmap in Hperm. split.
  - by rewrite reverse_Permutation.
  - rewrite <- reverse_omap. apply (Sorted_reverse (flip Z.le)).
    erewrite list_omap_ext in Hsorted;
      [|apply Forall_Forall2_diag, Forall_forall; intros i _;
        apply list_lookup_fmap].
    rewrite <- list_fmap_omap in Hsorted.
    apply Sorted_fmap_inv in Hsorted.
    eapply Sorted_weaken; [|exact Hsorted].
    unfold flip. simpl. intros x y. lia.
Qed.

(** ** Groups partition the rows that have a key *)

Lemma filter_none {A} (P : A → Prop) `{∀ x, Decision (P x)} (l : list A) :
  (∀ x, ¬ P x) → filter P l = [].
Proof.
  intros HP. induction l as [|x l IH]; [done|].
  by rewrite filter_cons_False.
Qed.

Lemma filter_disjoint_union {A} (P Q : A → Prop)
    `{∀ x, Decision (P x)} `{∀ x, Decision (Q x)} (l : list A) :
  (∀ x, P x → Q x → False) →
  filter P l ++ filter Q l ≡ₚ filter (λ x, P x ∨ Q x) l.
Proof.
  intros Hdisj. induction l as [|x l IH]; [done|].
  rewrite !filter_cons.
  destruct (decide (P x)) as [HP|HP], (decide (Q x)) as [HQ|HQ].
  - destruct (Hdisj x HP HQ).
  - rewrite decide_True by tauto. simpl. by f_equiv.
  - rewrite decide_True by tauto. rewrite <- Permutation_middle. by f_equiv.
  - rewrite decide_False by tauto. done.
Qed.

Section groupby_facts.
Context {K : Type} `{EqDecision K}.
Variables (leb : K → K → bool) (key : Row → option K).

Lemma elem_of_group_keys (df : DataFrame) (k : K) :
  k ∈ group_keys leb key df ↔ ∃ r, r ∈ df ∧ key r = Some k.
Proof.
  unfold group_keys.
  rewrite sorted_Permutation, elem_of_unique, elem_of_dropna, list_elem_of_fmap.
  split; intros (r & ? & ?); eauto.
Qed.

Lemma NoDup_group_keys (df : DataFrame) : NoDup (group_keys leb key df).
Proof.
  unfold group_keys. rewrite sorted_Permutation. apply NoDup_unique.
Qed.

Lemma groups_partition (keys : list K) (df : DataFrame) :
  NoDup keys →
  concat ((λ k, filter (λ r, key r = Some k) df) <$> keys)
  ≡ₚ filter (λ r, key r ∈ (Some <$> keys)) df.
Proof.
  induction 1 as [|k keys Hk Hnd IH]; simpl.
  - rewrite filter_none; [done|]. intros r. apply not_elem_of_nil.
  - rewrite IH, filter_disjoint_union.
    + erewrite list_filter_iff; [done|]. intros r. simpl.
      rewrite elem_of_cons. naive_solver.
    + intros r Hr Hin. rewrite Hr in Hin.
      apply list_elem_of_fmap in Hin as (k' & [= ->] & Hin). done.
Qed.

(** The groups, laid end to end, are the rows that have a key. *)
Lemma groupby_partition (df : DataFrame) :
  concat (snd <$> groupby leb key df) ≡ₚ filter (λ r, is_Some (key r)) df.
Proof.
  unfold groupby. rewrite <- list_fmap_compose.
  etrans; [apply groups_partition, NoDup_group_keys|].
  assert (Hfilter : ∀ l : DataFrame, l ⊆ df →
    filter (λ r, key r ∈ (Some <$> group_keys leb key df)) l =
    filter (λ r, is_Some (key r)) l); [|by rewrite Hfilter].
  induction l as [|r l IH]; intros Hsub; [done|].
  assert (Hr : r ∈ df) by (apply Hsub; left).
  assert (Hl : l ⊆ df) by (intros x Hx; apply Hsub; by right).
  rewrite !filter_cons, IH by done.
  destruct (key r) as [k|] eqn:Hk.
  - rewrite !decide_True; [done|done|].
    apply list_elem_of_fmap. exists k. split; [done|].
    apply elem_of_group_keys. eauto.
  - rewrite !decide_False; [done|by inversion 1|].
    intros (k & ? & _)%list_elem_of_fmap. done.
Qed.

Lemma groupby_keys (df : DataFrame) :
  fst <$> groupby leb key df = group_keys leb key df.
Proof.
  unfold groupby. rewrite <- list_fmap_compose. apply list_fmap_id.
Qed.
End groupby_facts.

(** ** Sums and counts over groups *)

Lemma column_sum_Permutation (c1 c2 : list Z) :
  c1 ≡ₚ c2 → column_sum c1 = column_sum c2.
Proof. induction 1; simpl; lia. Qed.

Lemma column_sum_app (c1 c2 : list Z) :
  column_sum (c1 ++ c2) = (column_sum c1 + column_sum c2)%Z.
Proof. induction c1; simpl; lia. Qed.

Lemma series_sum_Permutation (c1 c2 : list (option Z)) :
  c1 ≡ₚ c2 → series_sum c1 = series_sum c2.
Proof.
  intros Hperm. unfold series_sum, dropna.
  apply column_sum_Permutation. by rewrite Hperm.
Qed.

Lemma series_sum_app (c1 c2 : list (option Z)) :
  series_sum (c1 ++ c2) = (series_sum c1 + series_sum c2)%Z.
Proof. unfold series_sum, dropna. rewrite omap_app. apply column_sum_app. Qed.

Lemma series_count_app {A} (c1 c2 : list (option A)) :
  series_count (c1 ++ c2) = series_count c1 + series_count c2.
Proof. unfold series_count, dropna. by rewrite omap_app, length_app. Qed.

Lemma series_count_Permutation {A} (c1 c2 : list (option A)) :
  c1 ≡ₚ c2 → series_count c1 = series_count c2.
Proof. intros Hperm. unfold series_count, dropna. by rewrite Hperm. Qed.

Lemma sum_over_groups (cell : Row → option Z) (groups : list DataFrame) :
  column_sum ((λ g, series_sum (cell <$> g)) <$> groups) =
  series_sum (cell <$> concat groups).
Proof.
  induction groups as [|g groups IH]; [done|]. simpl.
  rewrite fmap_app, series_sum_app, <- IH. reflexivity.
Qed.

Lemma count_over_groups {A} (cell : Row → option A) (groups : list DataFrame) :
  sum_list ((λ g, series_count (cell <$> g)) <$> groups) =
  series_count (cell <$> concat groups).
Proof.
  induction groups as [|g groups IH]; [done|]. simpl.
  rewrite fmap_app, series_count_app, <- IH. reflexivity.
Qed.

(** * Claims *)

(** ** Claims on the filter engine *)

(** C1. The filtered view is a subsequence of the dataset (only rows of the
    dataset, in their original relative order) for every dataset and every
    selection, and it is the dataset itself when all four selections are
    "All". *)
Theorem C1_filtered_view_subsequence (df : DataFrame) (sel : Selection) :
  apply_filters df sel `sublist_of` df ∧
  apply_filters df no_filter = df.
Proof.
  split; [|reflexivity].
  rewrite apply_filters_dims.
  repeat (etrans; [apply filter_dim_sublist|]). reflexivity.
Qed.

(** C2. The four predicates compose as a logical AND.  The view is the
    single pass that keeps the rows passing all four tests; running the
    [if] blocks of any list of dimensions one after the other, in any
    order and combination, keeps the rows passing the tests of those
    dimensions; filtering an already filtered view by a second selection
    is the single pass by both, so two selections commute; and filtering
    by State=A then by Year=Y is filtering by (State=A, Year=Y). *)
Theorem C2_filters_compose_conjunctively (df : DataFrame) :
  (∀ sel, apply_filters df sel = filter (λ r, row_selected sel r) df) ∧
  (∀ sel ds,
     foldl (λ acc d, filter_dim d sel acc) df ds =
     filter (λ r, forallb (λ d, dim_ok d sel r) ds) df) ∧
  (∀ s1 s2,
     apply_filters (apply_filters df s1) s2 =
     filter (λ r, row_selected s1 r && row_selected s2 r) df) ∧
  (∀ s1 s2,
     apply_filters (apply_filters df s1) s2 =
     apply_filters (apply_filters df s2) s1) ∧
  (∀ a y,
     apply_filters (apply_filters df (mkSelection a All All All))
       (mkSelection All y All All) =
     apply_filters df (mkSelection a y All All)).
Proof.
  assert (Hboth : ∀ s1 s2,
    apply_filters (apply_filters df s1) s2 =
    filter (λ r, row_selected s1 r && row_selected s2 r) df).
  { intros s1 s2. rewrite !apply_filters_spec, list_filter_filter.
    apply list_filter_iff. intros r. rewrite andb_True. tauto. }
  split; [intros; apply apply_filters_spec|].
  split; [intros; apply foldl_filter_dim|].
  split; [exact Hboth|].
  split.
  - intros s1 s2. rewrite !Hboth. apply list_filter_iff. intros r.
    rewrite !andb_True. tauto.
  - intros a y. rewrite Hboth, apply_filters_spec.
    apply list_filter_iff. intros r. unfold row_selected, dim_ok, All. simpl.
    rewrite !andb_True, !orb_True. tauto.
Qed.

(** ** Claims on the aggregator: totals *)

Lemma deaths_by_state_sums (view : DataFrame) :
  snd <$> deaths_by_state view =
  (λ g, series_sum (Number_of_deaths <$> g)) <$>
  (snd <$> groupby String.leb States view).
Proof. unfold deaths_by_state. by rewrite <- !list_fmap_compose. Qed.

(** What the per-state sums add up to, whatever the table holds: the
    deaths of the rows that have a state. *)
Lemma per_state_sums_total (argsort : list Z → list nat) (view : DataFrame) :
  argsort_correct argsort →
  column_sum (snd <$> fatalities_by_state argsort view) =
  total_deaths (filter (λ r, is_Some (States r)) view).
Proof.
  intros Hok. unfold fatalities_by_state, total_deaths.
  rewrite (column_sum_Permutation _ (snd <$> deaths_by_state view))
    by (by rewrite sort_values_desc_Permutation).
  rewrite deaths_by_state_sums, sum_over_groups.
  apply series_sum_Permutation. by rewrite groupby_partition.
Qed.

Lemma filter_Forall {A} (P : A → Prop) `{∀ x, Decision (P x)} (l : list A) :
  Forall P l → filter P l = l.
Proof.
  induction 1 as [|x l Hx _ IH]; [done|].
  rewrite filter_cons_True by done. by f_equal.
Qed.

Lemma elem_of_apply_filters (df : DataFrame) (sel : Selection) (r : Row) :
  r ∈ apply_filters df sel ↔ row_selected sel r ∧ r ∈ df.
Proof. by rewrite apply_filters_spec, list_elem_of_filter. Qed.

(** An active state filter leaves only rows that have a state. *)
Lemma state_filter_active_has_state (df : DataFrame) (sel : Selection) :
  ne_All (state_filter sel) = true →
  Forall (λ r, is_Some (States r)) (apply_filters df sel).
Proof.
  intros Hactive. apply Forall_forall. intros r [Hsel _]%elem_of_apply_filters.
  unfold row_selected in Hsel. rewrite !andb_True in Hsel.
  destruct Hsel as [[[Hstate _] _] _]. simpl in Hstate.
  rewrite Hactive in Hstate. simpl in Hstate.
  destruct (States r); [by eexists|done].
Qed.

(** C3 (amended). For every selection whose filtered view has a state in
    every record, the per-state death sums of the group-by-state
    projection add up to the total-deaths metric of the same view.
    (Group-by leaves out the rows with a missing state; the metric does
    not.) *)
Theorem C3_state_sums_add_up_to_total_deaths
    (argsort : list Z → list nat) (df : DataFrame) (sel : Selection) :
  argsort_correct argsort →
  Forall (λ r, is_Some (States r)) (apply_filters df sel) →
  column_sum (snd <$> fatalities_by_state argsort (apply_filters df sel)) =
  total_deaths (apply_filters df sel).
Proof.
  intros Hok Hstates.
  by rewrite per_state_sums_total, filter_Forall.
Qed.

Lemma series_count_all_present {A} (cell : Row → option A) (view : DataFrame) :
  Forall (λ r, is_Some (cell r)) view →
  series_count (cell <$> view) = length view.
Proof.
  unfold series_count, dropna.
  induction 1 as [|r view [x Hx] _ IH]; [done|].
  csimpl. rewrite Hx. simpl. by rewrite IH.
Qed.

(** What the per-type counts add up to, whatever the table holds: the
    number of rows that have a type and an identifier. *)
Lemma per_type_counts_total (view : DataFrame) :
  sum_list (snd <$> incidents_by_type view) =
  series_count (Identifier <$> filter (λ r, is_Some (Incident_Type r)) view).
Proof.
  replace (snd <$> incidents_by_type view) with
    ((λ g, series_count (Identifier <$> g)) <$>
     (snd <$> groupby String.leb Incident_Type view))
    by (unfold incidents_by_type; by rewrite <- !list_fmap_compose).
  rewrite count_over_groups.
  apply series_count_Permutation. by rewrite groupby_partition.
Qed.

(** C4 (amended). For every selection whose filtered view has an incident
    type and an identifier in every record, the per-type record counts of
    the group-by-type projection add up to the number of rows of the same
    view.  (Group-by leaves out the rows with a missing type, and [count]
    the missing identifiers.) *)
Theorem C4_type_counts_add_up_to_total_incidents
    (df : DataFrame) (sel : Selection) :
  Forall (λ r, is_Some (Incident_Type r)) (apply_filters df sel) →
  Forall (λ r, is_Some (Identifier r)) (apply_filters df sel) →
  sum_list (snd <$> incidents_by_type (apply_filters df sel)) =
  total_incidents (apply_filters df sel).
Proof.
  intros Htypes Hids.
  rewrite per_type_counts_total, filter_Forall by done.
  by apply series_count_all_present.
Qed.

(** C5. When the filtered view is empty the metrics are 0 incidents,
    0 deaths and a NaN average duration, and the three format calls
    succeed: the boxes show "0", the zero total ("0", or "0.0" when the
    deaths column of the dataset has an empty cell and is therefore held
    as floats) and "nan". *)
Theorem C5_empty_view_metrics (df : DataFrame) (sel : Selection) :
  apply_filters df sel = [] →
  total_incidents (apply_filters df sel) = 0 ∧
  total_deaths (apply_filters df sel) = 0%Z ∧
  avg_duration (apply_filters df sel) = PNaN ∧
  metrics_display df (apply_filters df sel) =
    Some ("0", if hasnans (Number_of_deaths <$> df) then "0.0" else "0", "nan").
Proof.
  intros ->. do 3 (split; [reflexivity|]).
  unfold metrics_display. by destruct (hasnans (Number_of_deaths <$> df)).
Qed.

(** ** Claims on the aggregator: the state chart *)

Lemma deaths_by_state_keys (view : DataFrame) :
  fst <$> deaths_by_state view = group_keys String.leb States view.
Proof.
  unfold deaths_by_state. rewrite <- list_fmap_compose.
  apply (groupby_keys String.leb States).
Qed.

(** C6 (amended). For every selection the group-by-state projection is
    sorted in descending order of the summed death counts.  It is a
    reordering of the per-state groups, and group-by forms those in
    ascending order of the state name, not in the order the states are met
    in the view; there is no secondary sort key, so two states with equal
    sums stand as the sort leaves them. *)
Theorem C6_fatalities_sorted_descending
    (argsort : list Z → list nat) (df : DataFrame) (sel : Selection) :
  argsort_correct argsort →
  StronglySorted (λ a b, (b.2 ≤ a.2)%Z)
    (fatalities_by_state argsort (apply_filters df sel)) ∧
  fatalities_by_state argsort (apply_filters df sel)
    ≡ₚ deaths_by_state (apply_filters df sel) ∧
  StronglySorted string_lt (fst <$> deaths_by_state (apply_filters df sel)).
Proof.
  intros Hok. split; [|split].
  - by apply sort_values_desc_Sorted.
  - by apply sort_values_desc_Permutation.
  - rewrite deaths_by_state_keys. apply sorted_strings_strict, NoDup_unique.
Qed.

(** The contract of [argsort] does not settle the order of equal sums: two
    argsorts within it rank the tied states of [tied] differently. *)
Lemma tie_order_left_to_argsort :
  argsort_correct insertion_argsort ∧
  argsort_correct mirrored_argsort ∧
  fatalities_by_state insertion_argsort (apply_filters tied no_filter)
    = [("StateA", 5%Z); ("StateB", 5%Z)] ∧
  fatalities_by_state mirrored_argsort (apply_filters tied no_filter)
    = [("StateB", 5%Z); ("StateA", 5%Z)].
Proof.
  split; [apply insertion_argsort_correct|].
  split; [apply mirrored_argsort_correct|].
  split; reflexivity.
Qed.

(** ** Claims on the aggregator: the monthly trend *)

Lemma reindex_value_lookup {V} (keys : list string) (c : string → V) (s : string) :
  (λ found : nat * (string * V), found.2.2) <$>
    list_find (λ kv, kv.1 = s) ((λ k, (k, c k)) <$> keys) =
  if decide (s ∈ keys) then Some (c s) else None.
Proof.
  induction keys as [|k keys IH]; [done|]. csimpl.
  destruct (decide (k = s)) as [->|Hne].
  - rewrite decide_True by left. done.
  - rewrite <- option_fmap_compose. simpl.
    etrans; [exact IH|]. apply decide_ext. rewrite elem_of_cons.
    split; [by right|]. by intros [->|?].
Qed.

Lemma reindex_count_by_month (view : DataFrame) (s : string) :
  reindex_value (count_by_month view) (Some s) =
  if decide (s ∈ group_keys String.leb Month_Name view)
  then Some (series_count (Identifier <$> filter (λ r, Month_Name r = Some s) view))
  else None.
Proof.
  unfold reindex_value, count_by_month, groupby.
  rewrite <- list_fmap_compose.
  apply (reindex_value_lookup _
    (λ k, series_count (Identifier <$> filter (λ r, Month_Name r = Some k) view))).
Qed.

(** C7 (amended). For every selection the group-by-month record counts
    are reindexed onto the month order of the full dataset, the first-seen
    sequence of its Month_Name values: the projection has one row per
    entry of that sequence, in that order.  A month of the full dataset
    that no record of the filtered view has is in the projection with a
    missing count (NaN), neither 0 nor dropped; a month the view has shows
    the number of its records that have an identifier. *)
Theorem C7_monthly_trend_reindexed (df : DataFrame) (sel : Selection) :
  fst <$> monthly_trend df (apply_filters df sel) = unique (Month_Name <$> df) ∧
  (∀ label,
     label ∈ unique (Month_Name <$> df) →
     (∀ r, r ∈ apply_filters df sel → Month_Name r ≠ label) →
     (label, None) ∈ monthly_trend df (apply_filters df sel)) ∧
  (∀ label count,
     (label, count) ∈ monthly_trend df (apply_filters df sel) →
     (∀ r, r ∈ apply_filters df sel → Month_Name r ≠ label) →
     count = None) ∧
  (∀ s count,
     (Some s, count) ∈ monthly_trend df (apply_filters df sel) →
     (∃ r, r ∈ apply_filters df sel ∧ Month_Name r = Some s) →
     count = Some (series_count
       (Identifier <$> filter (λ r, Month_Name r = Some s) (apply_filters df sel)))).
Proof.
  set (view := apply_filters df sel).
  assert (Habsent : ∀ label,
    (∀ r, r ∈ view → Month_Name r ≠ label) →
    reindex_value (count_by_month view) label = None).
  { intros [s|] Hnone; [|done].
    rewrite reindex_count_by_month, decide_False; [done|].
    intros (r & Hr & Hs)%elem_of_group_keys. by apply (Hnone r). }
  split; [|split; [|split]].
  - unfold monthly_trend, month_order. rewrite <- list_fmap_compose.
    apply list_fmap_id.
  - intros label Hin Hnone. unfold monthly_trend, month_order.
    apply list_elem_of_fmap. exists label. by rewrite Habsent.
  - intros label count (l & [= -> ->] & _)%list_elem_of_fmap Hnone.
    by apply Habsent.
  - intros s count (l & [= <- ->] & _)%list_elem_of_fmap Hsome.
    rewrite reindex_count_by_month, decide_True; [done|].
    by apply elem_of_group_keys.
Qed.

(** ** Claims on the filter controller *)

Lemma option_values_spec {K} `{EqDecision K} (leb : K → K → bool)
    (key : Row → option K) (df : DataFrame) (k : K) :
  k ∈ sorted leb (unique (dropna (key <$> df))) ↔ ∃ r, r ∈ df ∧ key r = Some k.
Proof. apply (elem_of_group_keys leb key). Qed.


(** C10. A dataset with a record whose Month_Name is missing has the
    missing value among its month options, and only then; the state, year
    and incident-type options never hold a missing value, whatever their
    columns hold. *)
Theorem C10_missing_month_option (df : DataFrame) :
  ((∃ r, r ∈ df ∧ Month_Name r = None) → PNaN ∈ month_options df) ∧
  (PNaN ∈ month_options df → ∃ r, r ∈ df ∧ Month_Name r = None) ∧
  (PNaN ∉ state_options df) ∧
  (PNaN ∉ year_options df) ∧
  (PNaN ∉ incident_options df).
Proof.
  assert (Hmonth : PNaN ∈ month_options df ↔ ∃ r, r ∈ df ∧ Month_Name r = None).
  { unfold month_options, month_order. simpl.
    rewrite elem_of_cons, list_elem_of_fmap. split.
    - intros [[=]|(c & Hc & Hin)]. destruct c; [done|].
      apply elem_of_unique, list_elem_of_fmap in Hin as (r & ? & ?). eauto.
    - intros (r & Hr & Hnone). right. exists None. split; [done|].
      apply elem_of_unique, list_elem_of_fmap. eauto. }
  split; [apply Hmonth|]. split; [apply Hmonth|].
  unfold state_options, year_options, incident_options, int_column_value. simpl.
  rewrite !elem_of_cons, !list_elem_of_fmap.
  repeat split; intros [[=]|(? & Heq & _)]; try done.
  by destruct (hasnans (Year <$> df)).
Qed.

(** ** The scenario *)

(** C9. On the three-record dataset, whatever the identifiers: State=StateA
    leaves 2 records with 5 deaths in total and an average duration of 3/2
    (shown as "2", "5", "1.5"); State=StateA and Year=2023 leaves exactly
    the Fire record; and the unfiltered state chart puts StateB (10) above
    StateA (5). *)
Theorem C9_three_record_scenario
    (argsort : list Z → list nat) (i1 i2 i3 : option string) :
  argsort_correct argsort →
  total_incidents
    (apply_filters (scenario i1 i2 i3) (mkSelection (PStr "StateA") All All All)) = 2 ∧
  total_deaths
    (apply_filters (scenario i1 i2 i3) (mkSelection (PStr "StateA") All All All)) = 5%Z ∧
  avg_duration
    (apply_filters (scenario i1 i2 i3) (mkSelection (PStr "StateA") All All All))
    = PFloat (3 # 2) ∧
  metrics_display (scenario i1 i2 i3)
    (apply_filters (scenario i1 i2 i3) (mkSelection (PStr "StateA") All All All))
    = Some ("2", "5", "1.5") ∧
  apply_filters (scenario i1 i2 i3) (mkSelection (PStr "StateA") (PInt 2023) All All)
    = [mkRow (Some "StateA") (Some 2023%Z) (Some "February") (Some "Fire") i2
         (Some 0%Z) (Some 1%Q)] ∧
  fatalities_by_state argsort (apply_filters (scenario i1 i2 i3) no_filter)
    = [("StateB", 10%Z); ("StateA", 5%Z)].
Proof.
  intros Hok. do 5 (split; [reflexivity|]).
  unfold fatalities_by_state.
  pose proof (sort_values_desc_Sorted argsort Hok snd
    (deaths_by_state (apply_filters (scenario i1 i2 i3) no_filter))) as Hsorted.
  pose proof (sort_values_desc_Permutation argsort Hok snd
    (deaths_by_state (apply_filters (scenario i1 i2 i3) no_filter))) as Hperm.
  change (deaths_by_state (apply_filters (scenario i1 i2 i3) no_filter))
    with [("StateA", 5%Z); ("StateB", 10%Z)] in Hperm at 2.
  symmetry in Hperm. apply Permutation_length_2_inv in Hperm as [Heq|Heq];
    rewrite Heq in Hsorted |- *; [|done].
  apply StronglySorted_inv in Hsorted as [_ Hhd].
  apply Forall_cons in Hhd as [Hle _]. simpl in Hle. lia.
Qed.

(** ** Counterexamples to the claims as first stated *)

Lemma C3_missing_state_counterexample :
  column_sum
    (snd <$> fatalities_by_state insertion_argsort (apply_filters stateless no_filter))
  = 0%Z ∧
  total_deaths (apply_filters stateless no_filter) = 3%Z ∧
  column_sum
    (snd <$> fatalities_by_state insertion_argsort (apply_filters stateless no_filter))
  ≠ total_deaths (apply_filters stateless no_filter).
Proof. repeat split; done. Qed.

Lemma C4_missing_type_counterexample :
  sum_list (snd <$> incidents_by_type (apply_filters typeless no_filter)) = 0 ∧
  total_incidents (apply_filters typeless no_filter) = 1 ∧
  sum_list (snd <$> incidents_by_type (apply_filters typeless no_filter))
  ≠ total_incidents (apply_filters typeless no_filter).
Proof. repeat split; done. Qed.

Lemma C6_tie_order_counterexample :
  encounter_order (apply_filters tied no_filter) = ["StateB"; "StateA"] ∧
  fatalities_by_state insertion_argsort (apply_filters tied no_filter)
    = [("StateA", 5%Z); ("StateB", 5%Z)] ∧
  ¬ ties_in_encounter_order (apply_filters tied no_filter)
      (fatalities_by_state insertion_argsort (apply_filters tied no_filter)).
Proof.
  split; [reflexivity|]. split; [reflexivity|].
  intros Hties.
  destruct (Hties 0 1 "StateA" "StateB" 5%Z) as (i' & j' & Hlt & Hi & Hj);
    [lia|reflexivity|reflexivity|].
  destruct j' as [|j']; [lia|].
  destruct i' as [|[|i']]; [discriminate Hi| |discriminate Hi].
  destruct j' as [|j']; [lia|discriminate Hj].
Qed.

Lemma C7_absent_month_counterexample :
  monthly_trend sample (apply_filters sample only_StateB)
    = [(Some "January", Some 1); (Some "February", None)] ∧
  ¬ ((Some "February", Some 0) ∈ monthly_trend sample (apply_filters sample only_StateB)
     ∨ Some "February" ∉ fst <$> monthly_trend sample (apply_filters sample only_StateB)).
Proof.
  split; [reflexivity|].
  change (monthly_trend sample (apply_filters sample only_StateB))
    with [(Some "January", Some 1); (Some "February", @None nat)].
  intros [Hzero|Hdropped].
  - apply elem_of_cons in Hzero as [[=]|Hzero].
    apply elem_of_cons in Hzero as [[=]|Hzero].
    by apply elem_of_nil in Hzero.
  - apply Hdropped. simpl. right. left.
Qed.

(** ** The theorems at work on the worked inputs *)

Lemma C3_state_sums_witness :
  Forall (λ r, is_Some (States r)) (apply_filters sample only_StateA) ∧
  column_sum
    (snd <$> fatalities_by_state insertion_argsort (apply_filters sample only_StateA))
  = total_deaths (apply_filters sample only_StateA).
Proof.
  assert (Hstates : Forall (λ r, is_Some (States r)) (apply_filters sample only_StateA))
    by (repeat constructor; by eexists).
  split; [exact Hstates|].
  exact (C3_state_sums_add_up_to_total_deaths insertion_argsort sample only_StateA
           insertion_argsort_correct Hstates).
Defined.

Lemma C4_type_counts_witness :
  sum_list (snd <$> incidents_by_type (apply_filters sample no_filter))
  = total_incidents (apply_filters sample no_filter).
Proof.
  apply (C4_type_counts_add_up_to_total_incidents sample no_filter);
    repeat constructor; by eexists.
Defined.

Lemma C5_empty_view_witness :
  (apply_filters sample only_StateC = [] ∧
   total_incidents (apply_filters sample only_StateC) = 0 ∧
   total_deaths (apply_filters sample only_StateC) = 0%Z ∧
   avg_duration (apply_filters sample only_StateC) = PNaN ∧
   metrics_display sample (apply_filters sample only_StateC)
     = Some ("0", "0", "nan")) ∧
  (apply_filters uncounted only_StateC = [] ∧
   metrics_display uncounted (apply_filters uncounted only_StateC)
     = Some ("0", "0.0", "nan")).
Proof.
  split.
  - split; [reflexivity|].
    apply (C5_empty_view_metrics sample only_StateC). reflexivity.
  - split; [reflexivity|].
    apply (C5_empty_view_metrics uncounted only_StateC). reflexivity.
Defined.

Lemma C6_fatalities_sorted_witness :
  StronglySorted (λ a b, (b.2 ≤ a.2)%Z)
    (fatalities_by_state insertion_argsort (apply_filters sample no_filter)).
Proof.
  exact (proj1 (C6_fatalities_sorted_descending insertion_argsort sample no_filter
                  insertion_argsort_correct)).
Defined.

Lemma C7_monthly_trend_witness :
  (Some "February", None) ∈ monthly_trend sample (apply_filters sample only_StateB).
Proof.
  apply (proj1 (proj2 (C7_monthly_trend_reindexed sample only_StateB))).
  - right. left.
  - intros r Hr. apply list_elem_of_singleton in Hr as ->. done.
Defined.


Lemma C9_three_record_scenario_witness :
  fatalities_by_state insertion_argsort (apply_filters sample no_filter)
  = [("StateB", 10%Z); ("StateA", 5%Z)].
Proof.
  apply (C9_three_record_scenario insertion_argsort
           (Some "INC-1") (Some "INC-2") (Some "INC-3") insertion_argsort_correct).
Defined.

Lemma C10_missing_month_witness :
  PNaN ∈ month_options gappy ∧
  (PNaN ∉ state_options gappy) ∧
  (PNaN ∉ year_options gappy) ∧
  (PNaN ∉ incident_options gappy).
Proof.
  destruct (C10_missing_month_option gappy) as (Hmonth & _ & Hrest).
  split; [|exact Hrest].
  apply Hmonth. eexists. split; [right; left|]. reflexivity.
Defined.

(** * Further properties of the pipeline *)

(** ** Filter engine *)

Lemma sublist_filter_impl {A} (P Q : A → Prop)
    `{∀ x, Decision (P x)} `{∀ x, Decision (Q x)} (l : list A) :
  (∀ x, P x → Q x) → filter P l `sublist_of` filter Q l.
Proof.
  intros HPQ. rewrite <- (list_filter_filter_l P Q l) by done.
  apply sublist_filter.
Qed.

Lemma dim_ok_All_state (y m t : pyvalue) (r : Row) :
  dim_ok DimState (mkSelection All y m t) r = true.
Proof. reflexivity. Qed.

Lemma str_cell_eq_spec (c : option string) (s : string) :
  str_cell_eq c (PStr s) = true ↔ c = Some s.
Proof.
  destruct c as [s'|]; simpl; [|done].
  rewrite String.eqb_eq. split; congruence.
Qed.

Lemma str_cell_eq_True (c : option string) (s : string) :
  str_cell_eq c (PStr s) ↔ c = Some s.
Proof. rewrite Is_true_true. apply str_cell_eq_spec. Qed.

Lemma int_cell_eq_spec (c : option Z) (y : Z) :
  int_cell_eq c (PInt y) = true ↔ c = Some y.
Proof.
  destruct c as [y'|]; simpl; [|done].
  rewrite Z.eqb_eq. split; congruence.
Qed.

(** X1. Filtering a view again by the selection that produced it changes
    nothing. *)
Theorem filtering_twice_is_filtering_once (df : DataFrame) (sel : Selection) :
  apply_filters (apply_filters df sel) sel = apply_filters df sel.
Proof.
  rewrite !apply_filters_spec, list_filter_filter.
  apply list_filter_iff. intros r. tauto.
Qed.

(** X2. Setting any one of the four selections back to "All" can only add
    rows: the view under the full selection is a subsequence of the view
    under the relaxed one. *)
Theorem relaxing_one_filter_widens_the_view (df : DataFrame) (s y m t : pyvalue) :
  apply_filters df (mkSelection s y m t)
    `sublist_of` apply_filters df (mkSelection All y m t) ∧
  apply_filters df (mkSelection s y m t)
    `sublist_of` apply_filters df (mkSelection s All m t) ∧
  apply_filters df (mkSelection s y m t)
    `sublist_of` apply_filters df (mkSelection s y All t) ∧
  apply_filters df (mkSelection s y m t)
    `sublist_of` apply_filters df (mkSelection s y m All).
Proof.
  rewrite !apply_filters_spec.
  repeat split; apply sublist_filter_impl; intros r;
    unfold row_selected, dim_ok; simpl; rewrite !andb_True; intuition done.
Qed.

(** X3. The month dropdown offers the missing value when a record has no
    month (it is built without [dropna]); choosing it empties the view,
    whatever the other three selections are, because no cell equals NaN. *)
Theorem missing_month_option_selects_nothing (df : DataFrame) (sel : Selection) :
  month_filter sel = PNaN → apply_filters df sel = [].
Proof.
  intros Hnan. rewrite apply_filters_spec. apply filter_none. intros r.
  unfold row_selected, dim_ok. rewrite Hnan. simpl.
  destruct (Month_Name r); simpl; rewrite !andb_True; tauto.
Qed.

Lemma option_of_sorted_unique {K} `{EqDecision K} (leb : K → K → bool)
    (inj : K → pyvalue) (key : Row → option K) (df : DataFrame) (v : pyvalue) :
  v ∈ [All] ++ (inj <$> sorted leb (unique (dropna (key <$> df)))) →
  v ≠ All →
  ∃ k r, v = inj k ∧ r ∈ df ∧ key r = Some k.
Proof.
  simpl. rewrite elem_of_cons, list_elem_of_fmap.
  intros [->|(k & -> & Hk)] Hne; [done|].
  apply option_values_spec in Hk as (r & Hr & Hkey). eauto.
Qed.

(** X4. Every entry of a dropdown other than "All" and the missing month
    selects at least one record when chosen alone: the dropdowns only
    offer values that occur in the dataset. *)
Theorem every_offered_value_selects_a_record (df : DataFrame) (v : pyvalue) :
  v ≠ All →
  (v ∈ state_options df → apply_filters df (mkSelection v All All All) ≠ []) ∧
  (v ∈ year_options df → apply_filters df (mkSelection All v All All) ≠ []) ∧
  (v ∈ month_options df → v ≠ PNaN →
     apply_filters df (mkSelection All All v All) ≠ []) ∧
  (v ∈ incident_options df → apply_filters df (mkSelection All All All v) ≠ []).
Proof.
  intros Hne.
  assert (Hin : ∀ sel r, r ∈ df → row_selected sel r = true →
    apply_filters df sel ≠ []).
  { intros sel r Hr Hsel Hnil.
    assert (Hview : r ∈ apply_filters df sel)
      by (apply elem_of_apply_filters; by rewrite Hsel).
    rewrite Hnil in Hview. by apply elem_of_nil in Hview. }
  split; [|split; [|split]].
  - intros Hv. apply option_of_sorted_unique in Hv as (k & r & -> & Hr & Hk); [|done].
    apply (Hin _ r Hr). unfold row_selected, dim_ok. simpl.
    rewrite Hk. simpl. rewrite String.eqb_refl. by rewrite orb_true_r.
  - intros Hv. apply option_of_sorted_unique in Hv as (k & r & -> & Hr & Hk); [|done].
    apply (Hin _ r Hr). unfold row_selected, dim_ok, int_column_value. simpl.
    rewrite Hk. destruct (hasnans (Year <$> df)); simpl.
    + replace (Qeq_bool (inject_Z k) (inject_Z k)) with true; [done|].
      symmetry. by apply Qeq_bool_iff.
    + by rewrite Z.eqb_refl.
  - intros Hv Hnan. unfold month_options, month_order in Hv. simpl in Hv.
    apply elem_of_cons in Hv as [->|Hv]; [done|].
    apply list_elem_of_fmap in Hv as (c & -> & Hc).
    destruct c as [m|]; [|done].
    apply elem_of_unique, list_elem_of_fmap in Hc as (r & Hm & Hr).
    apply (Hin _ r Hr). unfold row_selected, dim_ok. simpl.
    rewrite <- Hm. simpl. rewrite String.eqb_refl. by rewrite orb_true_r.
  - intros Hv. apply option_of_sorted_unique in Hv as (k & r & -> & Hr & Hk); [|done].
    apply (Hin _ r Hr). unfold row_selected, dim_ok. simpl.
    rewrite Hk. simpl. rewrite String.eqb_refl. by rewrite orb_true_r.
Qed.

(** ** Charts and the selection *)

Lemma elem_of_groupby {K} `{EqDecision K} (leb : K → K → bool)
    (key : Row → option K) (view : DataFrame) (k : K) (g : DataFrame) :
  (k, g) ∈ groupby leb key view ↔
  (∃ r, r ∈ view ∧ key r = Some k) ∧ g = filter (λ r, key r = Some k) view.
Proof.
  unfold groupby. rewrite list_elem_of_fmap. split.
  - intros (k' & [= -> ->] & Hk). split; [|done]. by apply elem_of_group_keys in Hk.
  - intros [Hk ->]. exists k. split; [done|]. by apply elem_of_group_keys.
Qed.

Lemma NoDup_all_equal {A} (l : list A) (k : A) :
  NoDup l → (∀ x, x ∈ l → x = k) → l ≠ [] → l = [k].
Proof.
  intros Hnd Hall Hne. destruct l as [|a [|b l]]; [done| |].
  - f_equal. apply Hall. left.
  - apply NoDup_cons in Hnd as [Hab _]. destruct Hab.
    rewrite (Hall a), (Hall b); [left|right; left|left].
Qed.

(** A view whose rows all have the same key has one group, the view. *)
Lemma groupby_single_key {K} `{EqDecision K} (leb : K → K → bool)
    (key : Row → option K) (view : DataFrame) (k : K) :
  Forall (λ r, key r = Some k) view → view ≠ [] →
  groupby leb key view = [(k, view)].
Proof.
  intros Hall Hne. unfold groupby, group_keys.
  rewrite (NoDup_all_equal (unique (dropna (key <$> view))) k).
  - simpl. by rewrite filter_Forall.
  - apply NoDup_unique.
  - intros x (r & Hk & Hr)%elem_of_unique%elem_of_dropna%list_elem_of_fmap.
    rewrite Forall_forall in Hall. specialize (Hall r Hr). congruence.
  - destruct view as [|r view]; [done|]. intros Hnil.
    assert (Hk : k ∈ unique (dropna (key <$> r :: view))).
    { apply elem_of_unique, elem_of_dropna, list_elem_of_fmap.
      exists r. split; [|left]. symmetry. by apply Forall_inv in Hall. }
    rewrite Hnil in Hk. by apply elem_of_nil in Hk.
Qed.

Lemma selected_state_view (df : DataFrame) (s : string) (y m t : pyvalue) :
  s ≠ "All" →
  apply_filters df (mkSelection (PStr s) y m t) =
  filter (λ r, States r = Some s) (apply_filters df (mkSelection All y m t)).
Proof.
  intros Hs. rewrite !apply_filters_spec, list_filter_filter.
  apply list_filter_iff. intros r.
  unfold row_selected, dim_ok. simpl.
  apply String.eqb_neq in Hs. rewrite Hs. simpl.
  rewrite !andb_True, str_cell_eq_True. intuition done.
Qed.

Lemma selected_incident_view (df : DataFrame) (t : string) (s y m : pyvalue) :
  t ≠ "All" →
  apply_filters df (mkSelection s y m (PStr t)) =
  filter (λ r, Incident_Type r = Some t) (apply_filters df (mkSelection s y m All)).
Proof.
  intros Ht. rewrite !apply_filters_spec, list_filter_filter.
  apply list_filter_iff. intros r.
  unfold row_selected, dim_ok. simpl.
  apply String.eqb_neq in Ht. rewrite Ht. simpl.
  rewrite !andb_True, str_cell_eq_True. intuition done.
Qed.

(** X5. The state chart has one row for each state that occurs in the view,
    none for any other, and the row of a state carries the deaths of that
    state's records added up. *)
Theorem state_chart_rows
    (argsort : list Z → list nat) (view : DataFrame) :
  argsort_correct argsort →
  NoDup (fst <$> fatalities_by_state argsort view) ∧
  ∀ s d,
    (s, d) ∈ fatalities_by_state argsort view ↔
    (∃ r, r ∈ view ∧ States r = Some s) ∧
    d = total_deaths (filter (λ r, States r = Some s) view).
Proof.
  intros Hok.
  assert (Hperm : fatalities_by_state argsort view ≡ₚ deaths_by_state view)
    by (by apply sort_values_desc_Permutation).
  split.
  - rewrite Hperm, deaths_by_state_keys. apply NoDup_group_keys.
  - intros s d. rewrite Hperm. unfold deaths_by_state.
    rewrite list_elem_of_fmap. split.
    + intros ([k g] & [= -> ->] & Hg). apply elem_of_groupby in Hg as [Hk ->].
      done.
    + intros [Hk ->]. exists (s, filter (λ r, States r = Some s) view).
      split; [done|]. by apply elem_of_groupby.
Qed.

(** X6. Every bar equals the Total Deaths metric the dashboard shows once that
    state is selected and the other three selections are left as they
    are (a state whose name is the sentinel "All" cannot be selected). *)
Theorem bar_equals_total_deaths_of_selected_state
    (argsort : list Z → list nat) (df : DataFrame) (y m t : pyvalue)
    (s : string) (d : Z) :
  argsort_correct argsort →
  s ≠ "All" →
  (s, d) ∈ fatalities_by_state argsort (apply_filters df (mkSelection All y m t)) →
  d = total_deaths (apply_filters df (mkSelection (PStr s) y m t)).
Proof.
  intros Hok Hs Hbar.
  unfold fatalities_by_state in Hbar.
  rewrite (sort_values_desc_Permutation argsort Hok) in Hbar.
  unfold deaths_by_state in Hbar.
  apply list_elem_of_fmap in Hbar as ([k g] & [= -> ->] & Hg).
  apply elem_of_groupby in Hg as [_ ->].
  by rewrite selected_state_view.
Qed.

(** X7. With a state selected the chart has a single bar, that state's, as
    high as the Total Deaths metric; it is empty when no record matches. *)
Theorem selected_state_chart_is_one_bar
    (argsort : list Z → list nat) (df : DataFrame) (y m t : pyvalue) (s : string) :
  argsort_correct argsort →
  s ≠ "All" →
  fatalities_by_state argsort (apply_filters df (mkSelection (PStr s) y m t)) =
  match apply_filters df (mkSelection (PStr s) y m t) with
  | [] => []
  | view => [(s, total_deaths view)]
  end.
Proof.
  intros Hok Hs.
  set (view := apply_filters df (mkSelection (PStr s) y m t)).
  assert (Hperm : fatalities_by_state argsort view ≡ₚ deaths_by_state view)
    by (by apply sort_values_desc_Permutation).
  assert (Hall : Forall (λ r, States r = Some s) view).
  { unfold view. rewrite selected_state_view by done.
    apply Forall_forall. by intros r [? _]%list_elem_of_filter. }
  destruct view as [|r view'] eqn:Hview.
  - by apply Permutation_nil_r in Hperm.
  - unfold deaths_by_state in Hperm.
    rewrite (groupby_single_key _ _ _ s) in Hperm by done.
    by apply Permutation_singleton_r in Hperm.
Qed.

(** X8. The pie chart lists the incident types that occur in the view, each
    once and in ascending lexicographic order, and no other; the count of
    a type is the number of its records that have an identifier. *)
Theorem pie_chart_rows (view : DataFrame) :
  StronglySorted string_lt (fst <$> incidents_by_type view) ∧
  ∀ t c,
    (t, c) ∈ incidents_by_type view ↔
    (∃ r, r ∈ view ∧ Incident_Type r = Some t) ∧
    c = series_count (Identifier <$> filter (λ r, Incident_Type r = Some t) view).
Proof.
  split.
  - unfold incidents_by_type. rewrite <- list_fmap_compose.
    rewrite (list_fmap_ext _ fst (groupby String.leb Incident_Type view))
      by done.
    rewrite groupby_keys. apply sorted_strings_strict, NoDup_unique.
  - intros t c. unfold incidents_by_type. rewrite list_elem_of_fmap. split.
    + intros ([k g] & [= -> ->] & Hg). apply elem_of_groupby in Hg as [Hk ->].
      done.
    + intros [Hk ->]. exists (t, filter (λ r, Incident_Type r = Some t) view).
      split; [done|]. by apply elem_of_groupby.
Qed.

(** X9. With an incident type selected the pie chart has a single slice, that
    type's, counting the identifiers of the view; it is empty when no
    record matches. *)
Theorem selected_type_pie_is_one_slice
    (df : DataFrame) (s y m : pyvalue) (t : string) :
  t ≠ "All" →
  incidents_by_type (apply_filters df (mkSelection s y m (PStr t))) =
  match apply_filters df (mkSelection s y m (PStr t)) with
  | [] => []
  | view => [(t, series_count (Identifier <$> view))]
  end.
Proof.
  intros Ht.
  set (view := apply_filters df (mkSelection s y m (PStr t))).
  assert (Hall : Forall (λ r, Incident_Type r = Some t) view).
  { unfold view. rewrite selected_incident_view by done.
    apply Forall_forall. by intros r [? _]%list_elem_of_filter. }
  destruct view as [|r view'] eqn:Hview; [done|].
  unfold incidents_by_type.
  by rewrite (groupby_single_key _ _ _ t).
Qed.

(** ** The monthly trend *)

Lemma sum_list_fmap_filter {A} (h : A → nat) (P : A → Prop)
    `{∀ x, Decision (P x)} (l : list A) :
  (∀ x, ¬ P x → h x = 0) → sum_list (h <$> l) = sum_list (h <$> filter P l).
Proof.
  intros Hzero. induction l as [|x l IH]; [done|].
  rewrite filter_cons. destruct (decide (P x)) as [HP|HP]; csimpl.
  - by rewrite IH.
  - by rewrite IH, (Hzero x HP).
Qed.

Lemma sum_list_fmap_ext {A} (h1 h2 : A → nat) (l : list A) :
  (∀ x, x ∈ l → h1 x = h2 x) → sum_list (h1 <$> l) = sum_list (h2 <$> l).
Proof.
  intros Hext. induction l as [|x l IH]; [done|]. csimpl.
  rewrite IH, (Hext x); [done|left|]. intros y Hy. apply Hext. by right.
Qed.

Lemma count_by_month_total (view : DataFrame) :
  sum_list (snd <$> count_by_month view) =
  series_count (Identifier <$> filter (λ r, is_Some (Month_Name r)) view).
Proof.
  replace (snd <$> count_by_month view) with
    ((λ g, series_count (Identifier <$> g)) <$>
     (snd <$> groupby String.leb Month_Name view))
    by (unfold count_by_month; by rewrite <- !list_fmap_compose).
  rewrite count_over_groups.
  apply series_count_Permutation. by rewrite groupby_partition.
Qed.

(** X10. Reindexing onto the months of the full dataset loses no record: the
    counts of the trend that are present add up to the number of records
    of the view that have a month and an identifier.  (A record without a
    month is counted under no entry, the missing-month entry included.) *)
Theorem trend_counts_every_record_with_a_month (df : DataFrame) (sel : Selection) :
  trend_total (monthly_trend df (apply_filters df sel)) =
  series_count
    (Identifier <$> filter (λ r, is_Some (Month_Name r)) (apply_filters df sel)).
Proof.
  set (view := apply_filters df sel).
  set (K := group_keys String.leb Month_Name view).
  set (c := λ k, series_count (Identifier <$> filter (λ r, Month_Name r = Some k) view)).
  set (h := λ label, default 0 (reindex_value (count_by_month view) label)).
  assert (Hh : ∀ k, k ∈ K → h (Some k) = c k).
  { intros k Hk. unfold h. rewrite reindex_count_by_month.
    by rewrite decide_True. }
  assert (Hzero : ∀ label, label ∉ Some <$> K → h label = 0).
  { intros [k|] Hout; [|done]. unfold h. rewrite reindex_count_by_month.
    rewrite decide_False; [done|]. intros Hk. apply Hout.
    apply list_elem_of_fmap. eauto. }
  assert (Hsub : ∀ k, k ∈ K → Some k ∈ month_order df).
  { intros k (r & Hr & Hk)%elem_of_group_keys.
    apply elem_of_unique, list_elem_of_fmap. exists r. split; [done|].
    by apply elem_of_apply_filters in Hr as [_ Hr]. }
  assert (Hperm : filter (λ label, label ∈ Some <$> K) (month_order df)
                  ≡ₚ Some <$> K).
  { apply NoDup_Permutation.
    - apply NoDup_filter, NoDup_unique.
    - apply (NoDup_fmap_2 Some), NoDup_group_keys.
    - intros label. rewrite list_elem_of_filter. split; [tauto|].
      intros Hin. split; [done|].
      apply list_elem_of_fmap in Hin as (k & -> & Hk). by apply Hsub. }
  rewrite <- count_by_month_total.
  unfold trend_total, monthly_trend.
  rewrite <- !list_fmap_compose.
  change (sum_list (h <$> month_order df) = sum_list (snd <$> count_by_month view)).
  rewrite (sum_list_fmap_filter h (λ label, label ∈ Some <$> K)) by exact Hzero.
  rewrite Hperm, <- list_fmap_compose.
  rewrite (sum_list_fmap_ext (h ∘ Some) c) by exact Hh.
  f_equal. unfold count_by_month, groupby.
  by rewrite <- !list_fmap_compose.
Qed.

(** X11. On the unfiltered view every month of the trend that has a name has a
    count: a missing count there marks the missing-month entry and nothing
    else. *)
Theorem unfiltered_trend_has_a_count_for_every_named_month
    (df : DataFrame) (label : option string) (count : option nat) :
  (label, count) ∈ monthly_trend df (apply_filters df no_filter) →
  (count = None ↔ label = None).
Proof.
  change (apply_filters df no_filter) with df.
  unfold monthly_trend, month_order.
  intros (l & [= -> ->] & Hl)%list_elem_of_fmap.
  destruct l as [s|]; [|done].
  rewrite reindex_count_by_month, decide_True; [done|].
  apply elem_of_unique, list_elem_of_fmap in Hl as (r & Hs & Hr).
  apply elem_of_group_keys. eauto.
Qed.

(** ** What the boxes print *)









(** ** Edge cases *)

(** X18. When no record matches the selection the bar chart and the pie chart
    have no row, and the trend keeps one row per month of the full
    dataset, each with a missing count. *)
Theorem empty_view_gives_empty_charts
    (argsort : list Z → list nat) (df : DataFrame) (sel : Selection) :
  argsort_correct argsort →
  apply_filters df sel = [] →
  fatalities_by_state argsort (apply_filters df sel) = [] ∧
  incidents_by_type (apply_filters df sel) = [] ∧
  monthly_trend df (apply_filters df sel) = (λ label, (label, None)) <$> month_order df.
Proof.
  intros Hok ->. split; [|split].
  - apply Permutation_nil_r.
    apply (sort_values_desc_Permutation argsort Hok snd (deaths_by_state [])).
  - reflexivity.
  - unfold monthly_trend. apply list_fmap_ext. by intros _ [s|] _.
Qed.

(** X19. The state dropdown repeats no entry unless some record's state is
    literally "All", which then shows up beside the sentinel (and, being
    equal to it, filters nothing when chosen). *)
Theorem state_dropdown_repeats_only_the_sentinel (df : DataFrame) :
  NoDup (state_options df) ↔ ∀ r, r ∈ df → States r ≠ Some "All".
Proof.
  unfold state_options. simpl. rewrite NoDup_cons.
  assert (Hnd : NoDup (PStr <$> sorted String.leb (unique (dropna (States <$> df))))).
  { apply NoDup_fmap_2; [by intros ?? [=]|].
    rewrite sorted_Permutation. apply NoDup_unique. }
  split.
  - intros [Hout _] r Hr Hall. apply Hout.
    apply list_elem_of_fmap. exists "All". split; [done|].
    apply option_values_spec. eauto.
  - intros Hnone. split; [|done].
    intros (s & [= <-] & (r & Hr & Hs)%option_values_spec)%list_elem_of_fmap.
    by apply (Hnone r).
Qed.

(** ** The further properties at work on the worked inputs *)

Lemma missing_month_option_witness :
  apply_filters gappy (mkSelection All All PNaN All) = [].
Proof.
  apply (missing_month_option_selects_nothing gappy (mkSelection All All PNaN All)).
  reflexivity.
Defined.

Lemma every_offered_value_witness :
  apply_filters sample (mkSelection (PStr "StateB") All All All) ≠ [].
Proof.
  apply (every_offered_value_selects_a_record sample (PStr "StateB")); [done|].
  right. right. left.
Defined.

Lemma state_chart_rows_witness :
  ("StateB", 10%Z) ∈ fatalities_by_state insertion_argsort sample.
Proof.
  apply (proj2 (state_chart_rows insertion_argsort sample insertion_argsort_correct)).
  split; [|reflexivity]. eexists. split; [right; right; left|reflexivity].
Defined.

Lemma bar_equals_total_deaths_witness :
  10%Z = total_deaths (apply_filters sample only_StateB).
Proof.
  apply (bar_equals_total_deaths_of_selected_state insertion_argsort sample
           All All All "StateB" 10%Z insertion_argsort_correct); [done|].
  left.
Defined.

Lemma selected_state_chart_witness :
  fatalities_by_state insertion_argsort (apply_filters sample only_StateA)
  = [("StateA", 5%Z)].
Proof.
  apply (selected_state_chart_is_one_bar insertion_argsort sample All All All
           "StateA" insertion_argsort_correct).
  done.
Defined.

Lemma pie_chart_rows_witness :
  ("Flood", 2) ∈ incidents_by_type sample.
Proof.
  apply (proj2 (pie_chart_rows sample)).
  split; [|reflexivity]. eexists. split; [left|reflexivity].
Defined.

Lemma selected_type_pie_witness :
  incidents_by_type (apply_filters sample (mkSelection All All All (PStr "Flood")))
  = [("Flood", 2)].
Proof.
  apply (selected_type_pie_is_one_slice sample All All All "Flood"). done.
Defined.

Lemma unfiltered_trend_witness :
  Some 2 = None ↔ Some "January" = None.
Proof.
  apply (unfiltered_trend_has_a_count_for_every_named_month sample). left.
Defined.

Lemma empty_view_charts_witness :
  monthly_trend sample (apply_filters sample only_StateC)
  = [(Some "January", None); (Some "February", None)].
Proof.
  apply (empty_view_gives_empty_charts insertion_argsort sample only_StateC
           insertion_argsort_correct).
  reflexivity.
Defined.

Lemma state_dropdown_witness : NoDup (state_options sample).
Proof.
  apply (state_dropdown_repeats_only_the_sentinel sample).
  intros r Hr.
  repeat (apply elem_of_cons in Hr as [->|Hr]; [done|]).
  by apply elem_of_nil in Hr.
Defined.
